(** * Scroll-pinned phase animation of [client/src/pages/home.tsx]

    A shallow embedding of the progress mapper ([clamp01], [phaseOpacity]),
    of the pin registration made by [usePinnedSection], and of the five
    [onUpdate] callbacks that write opacity and vertical offset to the
    rendered targets of the pinned sections.

    JavaScript numbers are modelled twice.  Over exact rationals ([Q]) the
    source's decimal literals are the same literals, [+ - * /] are the
    field operations, [<=] is [Qle_bool], [Math.min]/[Math.max] are
    [Qmin]/[Qmax], [Math.floor] is [Qfloor] and numeric equality is [==]
    ([Qeq]); the order properties of the code, which rounding does not
    disturb, and the callbacks are stated in this model.  Module [F64]
    repeats the numeric core over binary64 floats, with rounding, signed
    zeros, infinities and NaN; what depends on the exact value the code
    returns is stated there. *)

From Stdlib Require Import QArith Qminmax Qround ZArith Lia Lqa Floats Uint63.
From stdpp Require Import base list strings gmap.

Set Warnings "-inexact-float".

Local Open Scope Q_scope.

(** ** Progress mapper *)

(** [type PinTimings = { fadeInEnd; holdEnd; fadeOutEnd }] *)
Record PinTimings : Type := mkPinTimings {
  fadeInEnd : Q;
  holdEnd : Q;
  fadeOutEnd : Q
}.

(** [const TIMINGS: PinTimings = { fadeInEnd: 0.2, holdEnd: 0.7, fadeOutEnd: 0.9 }] *)
Definition TIMINGS : PinTimings :=
  {| fadeInEnd := 0.2; holdEnd := 0.7; fadeOutEnd := 0.9 |}.

(** [function clamp01(n) { return Math.min(1, Math.max(0, n)); }] *)
Definition clamp01 (n : Q) : Q := Qmin 1 (Qmax 0 n).

(** The body of [phaseOpacity], written once over the thresholds it reads.
    In the source the thresholds are the module constant [TIMINGS]; the
    section variable stands for that constant. *)
Section PhaseBody.
Variable T : PinTimings.

Definition phaseOpacityWith (progress : Q) : Q :=
  let p := clamp01 progress in
  if Qle_bool p (fadeInEnd T) then p / fadeInEnd T
  else if Qle_bool p (holdEnd T) then 1
  else if Qle_bool p (fadeOutEnd T) then
    1 - (p - holdEnd T) / (fadeOutEnd T - holdEnd T)
  else 0.
End PhaseBody.

(** [function phaseOpacity(progress)]: the body above at [TIMINGS]. *)
Definition phaseOpacity (progress : Q) : Q := phaseOpacityWith TIMINGS progress.

(** The ordering the data model asks of a [PinTimings] value:
    [0 < fadeInEnd < holdEnd < fadeOutEnd <= 1]. *)
Definition timingsOrdered (T : PinTimings) : Prop :=
  0 < fadeInEnd T /\ fadeInEnd T < holdEnd T /\
  holdEnd T < fadeOutEnd T /\ fadeOutEnd T <= 1.

(** ** Active index of a multi-item section

    The two lines every multi-item callback starts with:
    [const t = clamp01((p - 0.2) / 0.5);]
    [const idx = Math.min(items.length - 1, Math.floor(t * items.length));]
    with [N] the value of [items.length]. *)
Definition activeIndex (N : Z) (p : Q) : Z :=
  let t := clamp01 ((p - 0.2) / 0.5) in
  Z.min (N - 1) (Qfloor (t * inject_Z N)).

(** ** Rendered targets

    The callbacks write two inline style properties of an element:
    [style.opacity = String(o)] and [style.transform = `translateY(${y}px)`].
    The style keeps the number that was written and, for the transform, the
    vertical offset in px; [None] is a transform that was never set. *)
Inductive Transform : Type :=
  | translateY (px : Q).

Record Style : Type := mkStyle {
  style_opacity : Q;
  style_transform : option Transform
}.

(** A React ref to an element: [None] is [ref.current === null]. *)
Abbreviation Ref := (option Style) (only parsing).

(** Initial inline styles of the JSX: [style={{ opacity: 0 }}] for the hero
    content, the diamond stage and the images; [style={{ opacity: 0,
    transform: "translateY(10px)" }}] for story lines and craft cards. *)
Definition hiddenStyle : Style :=
  {| style_opacity := 0; style_transform := None |}.
Definition hiddenShiftedStyle : Style :=
  {| style_opacity := 0; style_transform := Some (translateY 10) |}.

(** ** Item lists of the multi-item sections *)

Definition storyLines : list string :=
  [ "We grow each diamond with controlled pressure, controlled heat, and measured time.";
    "The result is the same crystal structure—without the extractive cost.";
    "Luxury should feel calm. Proof should feel precise." ]%string.

Record Image : Type := mkImage { img_id : string; img_alt : string; img_src : string }.

Definition visualImages : list Image :=
  [ {| img_id := "v1"; img_alt := "Lab-grown diamond macro photograph";
       img_src := "https://images.unsplash.com/photo-1602526432604-029a709e131c?auto=format&fit=crop&w=1800&q=80" |};
    {| img_id := "v2"; img_alt := "Diamond facets close-up";
       img_src := "https://images.unsplash.com/photo-1602526432604-029a709e131c?auto=format&fit=crop&w=1800&q=70" |};
    {| img_id := "v3"; img_alt := "Minimal luxury jewelry photography";
       img_src := "https://images.unsplash.com/photo-1522312346375-d1a52e2b99b3?auto=format&fit=crop&w=1800&q=80" |} ]%string.

Record Block : Type := mkBlock { k : string; v : string }.

Definition craftBlocks : list Block :=
  [ {| k := "Seed"; v := "A carbon seed begins the lattice." |};
    {| k := "Growth"; v := "Pressure and heat shape the crystal—slowly." |};
    {| k := "Cut"; v := "Angles measured to return light, not noise." |} ]%string.

(** ** The [onUpdate] callbacks

    Each callback mutates the styles of the elements its refs point to; it
    is a function from the refs before the call to the refs after it. *)

(** [PinnedHero]: one target, [contentRef]. *)
Definition PinnedHero_onUpdate (p : Q) (contentRef : Ref) : Ref :=
  let opacity := phaseOpacity p in
  match contentRef with
  | Some _ =>
      Some {| style_opacity := opacity;
              style_transform := Some (translateY ((1 - opacity) * 10)) |}
  | None => None
  end.

(** [PinnedDiamondReveal]: one target, [stageRef]. *)
Definition PinnedDiamondReveal_onUpdate (p : Q) (stageRef : Ref) : Ref :=
  let opacity := phaseOpacity p in
  match stageRef with
  | Some _ =>
      Some {| style_opacity := opacity;
              style_transform := Some (translateY ((1 - opacity) * 10)) |}
  | None => None
  end.

(** The multi-item callbacks are written over the captured item list, of
    which they only read [length]. *)
Section MultiItem.
Context {A : Type}.
Variable items : list A.

(** [PinnedStory]: [linesRef.current.forEach((node, i) => ...)]. *)
Definition storyOnUpdate (p : Q) (linesRef : list Ref) : list Ref :=
  let opacity := phaseOpacity p in
  let idx := activeIndex (Z.of_nat (length items)) p in
  imap (fun (i : nat) (node : Ref) =>
          match node with
          | None => None
          | Some _ =>
              let active := Z.eqb (Z.of_nat i) idx in
              let o := if active then opacity else 0 in
              Some {| style_opacity := o;
                      style_transform :=
                        Some (if active then translateY 0 else translateY 10) |}
          end) linesRef.

(** [PinnedAIGeneratedVisuals]: only the opacity is written. *)
Definition visualsOnUpdate (p : Q) (imagesRef : list Ref) : list Ref :=
  let opacity := phaseOpacity p in
  let idx := activeIndex (Z.of_nat (length items)) p in
  imap (fun (i : nat) (img : Ref) =>
          match img with
          | None => None
          | Some el =>
              let active := Z.eqb (Z.of_nat i) idx in
              Some {| style_opacity := if active then opacity else 0;
                      style_transform := style_transform el |}
          end) imagesRef.

(** [PinnedCraftsmanship]: [blocksRef.current.forEach((node, i) => ...)]. *)
Definition craftOnUpdate (p : Q) (blocksRef : list Ref) : list Ref :=
  let opacity := phaseOpacity p in
  let idx := activeIndex (Z.of_nat (length items)) p in
  imap (fun (i : nat) (node : Ref) =>
          match node with
          | None => None
          | Some _ =>
              let active := Z.eqb (Z.of_nat i) idx in
              Some {| style_opacity := if active then opacity else 0;
                      style_transform :=
                        Some (if active then translateY 0 else translateY 10) |}
          end) blocksRef.
End MultiItem.

Definition PinnedStory_onUpdate : Q -> list Ref -> list Ref :=
  storyOnUpdate storyLines.
Definition PinnedAIGeneratedVisuals_onUpdate : Q -> list Ref -> list Ref :=
  visualsOnUpdate visualImages.
Definition PinnedCraftsmanship_onUpdate : Q -> list Ref -> list Ref :=
  craftOnUpdate craftBlocks.

(** ** Pin registration *)

(** [type UsePinnedSectionOptions], over the type of the refs the
    callback writes to.  [pinRef] records whether the trigger element is
    attached; [pinDurationVh] is optional. *)
Record UsePinnedSectionOptions (Dom : Type) : Type := mkOptions {
  id : string;
  pinRef : option unit;
  onUpdate : Q -> Dom -> Dom;
  pinDurationVh : option Q
}.
Arguments id {Dom} _.
Arguments pinRef {Dom} _.
Arguments onUpdate {Dom} _.
Arguments pinDurationVh {Dom} _.

(** The variables handed to [ScrollTrigger.create]; [st_end] is the number
    after [+=] in the [end] string, the length of the pinned scroll range. *)
Record ScrollTriggerVars (Dom : Type) : Type := mkVars {
  st_id : string;
  st_start : string;
  st_end : Q;
  st_pin : bool;
  st_pinSpacing : bool;
  st_scrub : bool;
  st_anticipatePin : Z;
  st_onUpdate : Q -> Dom -> Dom
}.
Arguments st_id {Dom} _.
Arguments st_start {Dom} _.
Arguments st_end {Dom} _.
Arguments st_pin {Dom} _.
Arguments st_pinSpacing {Dom} _.
Arguments st_scrub {Dom} _.
Arguments st_anticipatePin {Dom} _.
Arguments st_onUpdate {Dom} _.

(** [(opts.pinDurationVh ?? 200) * (window.innerHeight / 100)] *)
Definition pinRange (pinDurationVh : option Q) (innerHeight : Q) : Q :=
  default 200 pinDurationVh * (innerHeight / 100).

(** The effect of [usePinnedSection]: no registration when the trigger
    element is not attached ([if (!el) return;]), else the trigger that is
    created. *)
Definition usePinnedSection {Dom : Type} (innerHeight : Q)
    (opts : UsePinnedSectionOptions Dom) : option (ScrollTriggerVars Dom) :=
  match pinRef opts with
  | None => None
  | Some _ =>
      Some {| st_id := id opts;
              st_start := "top top";
              st_end := pinRange (pinDurationVh opts) innerHeight;
              st_pin := true;
              st_pinSpacing := true;
              st_scrub := true;
              st_anticipatePin := 1;
              st_onUpdate := fun progress => onUpdate opts progress |}
  end.

(** Modelled from the spec: [self.progress] is computed by the GSAP
    ScrollTrigger library, which is not part of the repository.  The spec
    gives it for a pinned section as
    [clamp01((virtualPos - start) / pinDistance)]. *)
Definition progressAt (start pinDistance virtualPos : Q) : Q :=
  clamp01 ((virtualPos - start) / pinDistance).


(** The options objects of the five pinned sections, with the trigger
    element attached. *)
Definition PinnedHero_opts : UsePinnedSectionOptions Ref :=
  {| id := "hero"; pinRef := Some tt;
     onUpdate := PinnedHero_onUpdate; pinDurationVh := Some 200 |}.
Definition PinnedAIGeneratedVisuals_opts : UsePinnedSectionOptions (list Ref) :=
  {| id := "ai-visuals"; pinRef := Some tt;
     onUpdate := PinnedAIGeneratedVisuals_onUpdate; pinDurationVh := Some 220 |}.
Definition PinnedCraftsmanship_opts : UsePinnedSectionOptions (list Ref) :=
  {| id := "craft"; pinRef := Some tt;
     onUpdate := PinnedCraftsmanship_onUpdate; pinDurationVh := Some 220 |}.

(** ** The numeric core over binary64

    The same three functions with [number] as a binary64 float.  Decimal
    literals denote the nearest float, the arithmetic is correctly rounded,
    and a comparison with NaN is false. *)
Module F64.
Local Open Scope float_scope.

(** [Math.max(a, b)]: NaN when either argument is NaN; [+0] counts as
    larger than [-0]. *)
Definition Math_max (a b : float) : float :=
  if orb (is_nan a) (is_nan b) then nan
  else if a <? b then b
  else if b <? a then a
  else if get_sign a then b else a.

(** [Math.min(a, b)]: NaN when either argument is NaN; [-0] counts as
    smaller than [+0]. *)
Definition Math_min (a b : float) : float :=
  if orb (is_nan a) (is_nan b) then nan
  else if a <? b then a
  else if b <? a then b
  else if get_sign a then a else b.

(** [Math.floor(x)]: zeros, infinities and NaN are returned as they are;
    a finite [(-1)^s * m * 2^e] with [e >= 0] is an integer already, and
    otherwise the mantissa is shifted and rounded towards minus
    infinity. *)
Definition Math_floor (x : float) : float :=
  match Prim2SF x with
  | S754_finite s m e =>
      if (0 <=? e)%Z then x
      else
        let q := Z.shiftr (Z.pos m) (- e) in
        let exact := Z.eqb (Z.shiftl q (- e)) (Z.pos m) in
        let n := if s then (if exact then q else q + 1)%Z else q in
        let f := of_uint63 (Uint63.of_Z n) in
        if s then - f else f
  | _ => x
  end.

Definition clamp01 (n : float) : float := Math_min 1 (Math_max 0 n).

Definition phaseOpacity (progress : float) : float :=
  let p := clamp01 progress in
  if p <=? 0.2 then p / 0.2
  else if p <=? 0.7 then 1
  else if p <=? 0.9 then 1 - (p - 0.7) / (0.9 - 0.7)
  else 0.

Definition activeIndex (N p : float) : float :=
  let t := clamp01 ((p - 0.2) / 0.5) in
  Math_min (N - 1) (Math_floor (t * N)).

(** [(opts.pinDurationVh ?? 200) * (window.innerHeight / 100)] *)
Definition pinRange (pinDurationVh : option float) (innerHeight : float) : float :=
  (match pinDurationVh with Some d => d | None => 200 end) * (innerHeight / 100).

(** The rational a finite float stands for: [(-1)^s * m * 2^e]. *)
Definition toQ (x : float) : option Q :=
  match Prim2SF x with
  | S754_zero _ => Some 0%Q
  | S754_finite s m e =>
      Some ((if s then - (Z.pos m # 1) else (Z.pos m # 1)) * Qpower 2 e)%Q
  | _ => None
  end.
End F64.

(** ** The order of binary64 values

    The comparisons [<?] and [<=?] of floats are read through a rank: a
    NaN has none, and the others are ordered as triples, first by class
    (minus infinity, negative, zero, positive, plus infinity), then by
    exponent and mantissa, both negated for a negative value. *)
Definition SFrank (x : spec_float) : option (Z * Z * Z) :=
  match x with
  | S754_nan => None
  | S754_infinity true => Some (-2, 0, 0)%Z
  | S754_infinity false => Some (2, 0, 0)%Z
  | S754_zero _ => Some (0, 0, 0)%Z
  | S754_finite true m e => Some (-1, - e, - Z.pos m)%Z
  | S754_finite false m e => Some (1, e, Z.pos m)%Z
  end.

Definition f64_rank (x : float) : option (Z * Z * Z) := SFrank (Prim2SF x).

(** The lexicographic order of ranks. *)
Definition rank_lt (a b : Z * Z * Z) : Prop :=
  let '(a1, a2, a3) := a in
  let '(b1, b2, b3) := b in
  (a1 < b1 \/ (a1 = b1 /\ (a2 < b2 \/ (a2 = b2 /\ a3 < b3))))%Z.

(** ** The sections and their rendering targets *)

Inductive PinnedSection : Type :=
  | Hero | DiamondReveal | Story | AIGeneratedVisuals | Craftsmanship.

(** What a section's callback writes to: one ref, or an array of refs. *)
Definition Dom (s : PinnedSection) : Type :=
  match s with
  | Hero | DiamondReveal => Ref
  | Story | AIGeneratedVisuals | Craftsmanship => list Ref
  end.

Definition sectionOnUpdate (s : PinnedSection) : Q -> Dom s -> Dom s :=
  match s with
  | Hero => PinnedHero_onUpdate
  | DiamondReveal => PinnedDiamondReveal_onUpdate
  | Story => PinnedStory_onUpdate
  | AIGeneratedVisuals => PinnedAIGeneratedVisuals_onUpdate
  | Craftsmanship => PinnedCraftsmanship_onUpdate
  end.

(** The refs of a section, in order. *)
Definition targets (s : PinnedSection) : Dom s -> list Ref :=
  match s with
  | Hero | DiamondReveal => fun r => [r]
  | Story | AIGeneratedVisuals | Craftsmanship => fun l => l
  end.




(** Three story lines as first rendered, all attached. *)
Definition mountedLines : list Ref := Some <$> replicate 3 hiddenShiftedStyle.

(** ** The reference definition of the spec

    The piecewise-linear function as the spec words it for the default
    thresholds, on an unclamped [p]: [p / 0.2] up to [0.2], [1] up to [0.7],
    [1 - (p - 0.7) / 0.2] up to [0.9], and [0] beyond. *)
Definition phaseOpacity_spec (p : Q) : Q :=
  if Qle_bool p 0.2 then p / 0.2
  else if Qle_bool p 0.7 then 1
  else if Qle_bool p 0.9 then 1 - (p - 0.7) / 0.2
  else 0.

(** ** The smooth-scroll frame loop of [useLenis]

    The effect creates a Lenis instance, starts a self-rescheduling
    animation-frame callback [raf], and returns a cleanup that cancels the
    frame handle held in [rafId] and destroys the instance.  The Lenis
    instance is seen through the calls made on it; the animation-frame
    queue is the host's: [requestAnimationFrame] hands out a fresh handle
    and queues the callback under it, [cancelAnimationFrame] takes a handle
    off the queue, and at a frame the host empties the queue and runs what
    was on it. *)

(** The options of [new Lenis({...})]. *)
Record LenisOptions : Type := mkLenisOptions {
  lerp : Q;
  smoothWheel : bool;
  wheelMultiplier : Q;
  touchMultiplier : Q
}.

Definition lenisOptions : LenisOptions :=
  {| lerp := 0.085; smoothWheel := true;
     wheelMultiplier := 0.85; touchMultiplier := 1 |}.

(** A call on the Lenis instance: [lenis.raf(time)] or [lenis.destroy()]. *)
Inductive LenisCall : Type :=
  | CallRaf (time : Q)
  | CallDestroy.

(** The state the effect and its callbacks share: the calls made on the
    instance so far, the variable [rafId], and the host's queue of
    handles under which [raf] is waiting. *)
Record LenisLoop : Type := mkLenisLoop {
  lenis_config : LenisOptions;
  lenis_calls : list LenisCall;
  rafId : nat;
  nextHandle : nat;
  pending : gset nat
}.

(** [requestAnimationFrame(raf)]: the handle, and the state with [raf]
    queued under it. *)
Definition requestAnimationFrame (w : LenisLoop) : nat * LenisLoop :=
  (nextHandle w,
   {| lenis_config := lenis_config w;
      lenis_calls := lenis_calls w;
      rafId := rafId w;
      nextHandle := S (nextHandle w);
      pending := {[nextHandle w]} ∪ pending w |}).

(** [cancelAnimationFrame(handle)] *)
Definition cancelAnimationFrame (handle : nat) (w : LenisLoop) : LenisLoop :=
  {| lenis_config := lenis_config w;
     lenis_calls := lenis_calls w;
     rafId := rafId w;
     nextHandle := nextHandle w;
     pending := pending w ∖ {[handle]} |}.

(** [const raf = (time) => { lenis.raf(time); rafId = requestAnimationFrame(raf); }] *)
Definition raf (time : Q) (w : LenisLoop) : LenisLoop :=
  let w1 := {| lenis_config := lenis_config w;
               lenis_calls := lenis_calls w ++ [CallRaf time];
               rafId := rafId w;
               nextHandle := nextHandle w;
               pending := pending w |} in
  let '(handle, w2) := requestAnimationFrame w1 in
  {| lenis_config := lenis_config w2;
     lenis_calls := lenis_calls w2;
     rafId := handle;
     nextHandle := nextHandle w2;
     pending := pending w2 |}.

(** The body of the effect, run on a host whose next free handle is
    [firstHandle] and on whose queue nothing of this effect waits:
    [new Lenis], [let rafId = 0], [rafId = requestAnimationFrame(raf)]. *)
Definition useLenis_mount (firstHandle : nat) : LenisLoop :=
  let w0 := {| lenis_config := lenisOptions;
               lenis_calls := [];
               rafId := 0;
               nextHandle := firstHandle;
               pending := ∅ |} in
  let '(handle, w1) := requestAnimationFrame w0 in
  {| lenis_config := lenis_config w1;
     lenis_calls := lenis_calls w1;
     rafId := handle;
     nextHandle := nextHandle w1;
     pending := pending w1 |}.

(** The cleanup the effect returns:
    [cancelAnimationFrame(rafId); lenis.destroy();] *)
Definition useLenis_cleanup (w : LenisLoop) : LenisLoop :=
  let w1 := cancelAnimationFrame (rafId w) w in
  {| lenis_config := lenis_config w1;
     lenis_calls := lenis_calls w1 ++ [CallDestroy];
     rafId := rafId w1;
     nextHandle := nextHandle w1;
     pending := pending w1 |}.

(** One animation frame of the host at [time]: the queue is emptied and
    each callback that was on it runs once; what a callback queues waits
    for the next frame. *)
Definition animationFrame (w : LenisLoop) (time : Q) : LenisLoop :=
  let due := elements (pending w) in
  let w0 := {| lenis_config := lenis_config w;
               lenis_calls := lenis_calls w;
               rafId := rafId w;
               nextHandle := nextHandle w;
               pending := ∅ |} in
  foldl (fun w' _ => raf time w') w0 due.

(** The frames at the given times, in order. *)
Definition animationFrames (w : LenisLoop) (times : list Q) : LenisLoop :=
  foldl animationFrame w times.

(** The ref at index [i] of [l] points to an element. *)
Definition attachedAt (l : list Ref) (i : nat) : Prop :=
  exists el, l !! i = Some (Some el).

(** ** Basic facts about [clamp01] *)

Lemma Qmax_0_cases (n : Q) :
  (n <= 0 /\ Qmax 0 n = 0) \/ (0 < n /\ Qmax 0 n = n).
Proof.
  unfold Qmax, GenericMinMax.gmax.
  destruct (0 ?= n) eqn:E.
  - left. apply Qeq_alt in E. split; [rewrite <- E; apply Qle_refl | reflexivity].
  - right. apply Qlt_alt in E. split; [exact E | reflexivity].
  - left. apply Qgt_alt in E. split; [apply Qlt_le_weak; exact E | reflexivity].
Qed.

Lemma Qmin_1_cases (n : Q) :
  (1 <= n /\ Qmin 1 n = 1) \/ (n < 1 /\ Qmin 1 n = n).
Proof.
  unfold Qmin, GenericMinMax.gmin.
  destruct (1 ?= n) eqn:E.
  - left. apply Qeq_alt in E. split; [rewrite E; apply Qle_refl | reflexivity].
  - left. apply Qlt_alt in E. split; [apply Qlt_le_weak; exact E | reflexivity].
  - right. apply Qgt_alt in E. split; [exact E | reflexivity].
Qed.

(** [clamp01] returns the literal [0], the literal [1], or its argument. *)
Lemma clamp01_cases (n : Q) :
  (n <= 0 /\ clamp01 n = 0) \/
  (0 < n /\ n < 1 /\ clamp01 n = n) \/
  (1 <= n /\ clamp01 n = 1).
Proof.
  unfold clamp01.
  destruct (Qmax_0_cases n) as [[Hn ->] | [Hn ->]].
  - left. split; [exact Hn | reflexivity].
  - destruct (Qmin_1_cases n) as [[H1 ->] | [H1 ->]].
    + right; right. split; [exact H1 | reflexivity].
    + right; left. split; [exact Hn | split; [exact H1 | reflexivity]].
Qed.

Lemma clamp01_range (n : Q) : 0 <= clamp01 n <= 1.
Proof.
  destruct (clamp01_cases n) as [[_ ->] | [[H0 [H1 ->]] | [_ ->]]]; lra.
Qed.

Lemma clamp01_id (n : Q) : 0 <= n <= 1 -> clamp01 n == n.
Proof.
  intros [H0 H1].
  destruct (clamp01_cases n) as [[H ->] | [[_ [_ ->]] | [H ->]]]; lra.
Qed.

Lemma clamp01_idem (n : Q) : clamp01 (clamp01 n) = clamp01 n.
Proof.
  destruct (clamp01_cases n) as [[_ ->] | [[H0 [H1 E]] | [_ ->]]];
    [reflexivity | | reflexivity].
  rewrite E. exact E.
Qed.

#[export] Instance clamp01_proper : Proper (Qeq ==> Qeq) clamp01.
Proof.
  intros x y Hxy. unfold clamp01. rewrite Hxy. reflexivity.
Qed.

(** ** The four branches of [phaseOpacity] *)

Lemma Qle_bool_false (x y : Q) : Qle_bool x y = false -> y < x.
Proof.
  intros H. apply Qnot_le_lt. intros Hle.
  apply Qle_bool_iff in Hle. congruence.
Qed.

(** Case analysis on a [Qle_bool] test, leaving the order fact it decides. *)
Ltac case_Qle x y H :=
  destruct (Qle_bool x y) eqn:H;
  [apply Qle_bool_iff in H | apply Qle_bool_false in H].

(** The value of [phaseOpacity] in terms of the clamped progress, with the
    divisions by the default thresholds carried out. *)
Lemma phaseOpacity_cases (progress : Q) :
  let p := clamp01 progress in
  (p <= 0.2 /\ phaseOpacity progress == p * 5) \/
  (0.2 < p /\ p <= 0.7 /\ phaseOpacity progress == 1) \/
  (0.7 < p /\ p <= 0.9 /\ phaseOpacity progress == 1 - (p - 0.7) * 5) \/
  (0.9 < p /\ phaseOpacity progress == 0).
Proof.
  intros p. unfold phaseOpacity, phaseOpacityWith. fold p. cbn [fadeInEnd holdEnd fadeOutEnd TIMINGS].
  case_Qle p 0.2 H1.
  - left. split; [exact H1 | field].
  - case_Qle p 0.7 H2.
    + right; left. split; [exact H1 | split; [exact H2 | reflexivity]].
    + case_Qle p 0.9 H3.
      * right; right; left. split; [exact H2 | split; [exact H3 | field]].
      * right; right; right. split; [exact H3 | reflexivity].
Qed.

#[export] Instance phaseOpacityWith_proper (T : PinTimings) :
  Proper (Qeq ==> Qeq) (phaseOpacityWith T).
Proof.
  intros x y Hxy. unfold phaseOpacityWith.
  pose proof (clamp01_proper x y Hxy) as Hc.
  rewrite !(Qleb_comp _ _ Hc _ _ (Qeq_refl _)).
  destruct (Qle_bool (clamp01 y) (fadeInEnd T)); [rewrite Hc; reflexivity |].
  destruct (Qle_bool (clamp01 y) (holdEnd T)); [reflexivity |].
  destruct (Qle_bool (clamp01 y) (fadeOutEnd T)); [rewrite Hc; reflexivity | reflexivity].
Qed.

#[export] Instance phaseOpacity_proper : Proper (Qeq ==> Qeq) phaseOpacity.
Proof. intros x y Hxy. unfold phaseOpacity. rewrite Hxy. reflexivity. Qed.

(** ** [clamp01] *)

(** C8: [clamp01] sends every input below 0 to 0, every input above 1 to 1,
    and is the identity on [0,1]. *)
Theorem clamp01_boundary (n : Q) :
  (n < 0 -> clamp01 n == 0) /\
  (1 < n -> clamp01 n == 1) /\
  (0 <= n <= 1 -> clamp01 n == n).
Proof.
  split; [| split].
  - intros Hn.
    destruct (clamp01_cases n) as [[_ ->] | [[H0 _] | [H1 _]]];
      [reflexivity | lra | lra].
  - intros Hn.
    destruct (clamp01_cases n) as [[H0 _] | [[_ [H1 _]] | [_ ->]]];
      [lra | lra | reflexivity].
  - apply clamp01_id.
Qed.

Lemma clamp01_boundary_witness :
  clamp01 (-3) == 0 /\ clamp01 5 == 1 /\ clamp01 0.5 == 0.5.
Proof.
  destruct (clamp01_boundary (-3)) as [Hlo _].
  destruct (clamp01_boundary 5) as [_ [Hhi _]].
  destruct (clamp01_boundary 0.5) as [_ [_ Hid]].
  split; [apply Hlo; reflexivity | split; [apply Hhi; reflexivity |]].
  apply Hid. split; discriminate.
Defined.

(** ** [phaseOpacity] against the reference definition *)

Lemma phaseOpacity_spec_cases (p : Q) :
  (p <= 0.2 /\ phaseOpacity_spec p == p * 5) \/
  (0.2 < p /\ p <= 0.7 /\ phaseOpacity_spec p == 1) \/
  (0.7 < p /\ p <= 0.9 /\ phaseOpacity_spec p == 1 - (p - 0.7) * 5) \/
  (0.9 < p /\ phaseOpacity_spec p == 0).
Proof.
  unfold phaseOpacity_spec.
  case_Qle p 0.2 H1.
  - left. split; [exact H1 | field].
  - case_Qle p 0.7 H2.
    + right; left. split; [exact H1 | split; [exact H2 | reflexivity]].
    + case_Qle p 0.9 H3.
      * right; right; left. split; [exact H2 | split; [exact H3 | field]].
      * right; right; right. split; [exact H3 | reflexivity].
Qed.

(** On every rational the code and the reference agree once the argument
    of the reference is clamped. *)
Lemma phaseOpacity_spec_clamped (x : Q) :
  phaseOpacity x == phaseOpacity_spec (clamp01 x).
Proof.
  pose proof (phaseOpacity_cases x) as Hc. cbv zeta in Hc.
  pose proof (phaseOpacity_spec_cases (clamp01 x)) as Hs.
  destruct Hc as [[A ->] | [[A [B ->]] | [[A [B ->]] | [A ->]]]];
    destruct Hs as [[C ->] | [[C [D ->]] | [[C [D ->]] | [C ->]]]];
    try reflexivity; exfalso; lra.
Qed.

(** In exact arithmetic, on [0,1] the expression [phaseOpacity] evaluates
    is the reference definition.  What the binary64 evaluation returns is
    stated further down, over [F64]. *)
Lemma phaseOpacity_exact_reference :
  (forall p, 0 <= p <= 1 -> phaseOpacity p == phaseOpacity_spec p) /\
  (forall p, 0 <= p <= 1 ->
     (p <= 0.2 -> phaseOpacity p == p / 0.2) /\
     (0.2 < p /\ p <= 0.7 -> phaseOpacity p == 1) /\
     (0.7 < p /\ p <= 0.9 -> phaseOpacity p == 1 - (p - 0.7) / 0.2) /\
     (0.9 < p -> phaseOpacity p == 0)) /\
  phaseOpacity 0 == 0 /\ phaseOpacity 0.2 == 1 /\ phaseOpacity 0.7 == 1 /\
  phaseOpacity 0.9 == 0 /\ phaseOpacity 1 == 0.
Proof.
  split; [| split].
  - intros p Hp. rewrite phaseOpacity_spec_clamped.
    unfold phaseOpacity_spec.
    pose proof (clamp01_id p Hp) as Hc.
    rewrite !(Qleb_comp _ _ Hc _ _ (Qeq_refl _)).
    destruct (Qle_bool p 0.2); [rewrite Hc; reflexivity |].
    destruct (Qle_bool p 0.7); [reflexivity |].
    destruct (Qle_bool p 0.9); [rewrite Hc; reflexivity | reflexivity].
  - intros p Hp.
    pose proof (phaseOpacity_cases p) as Hc. cbv zeta in Hc.
    pose proof (clamp01_id p Hp) as Hid.
    assert (E1 : p / 0.2 == p * 5) by field.
    assert (E2 : 1 - (p - 0.7) / 0.2 == 1 - (p - 0.7) * 5) by field.
    rewrite E1, E2.
    destruct Hc as [[A ->] | [[A [B ->]] | [[A [B ->]] | [A ->]]]];
      rewrite Hid in *;
      (split; [| split; [| split]]); intros; try reflexivity;
      try (rewrite Hid; reflexivity); exfalso; lra.
  - repeat (split; [reflexivity |]). reflexivity.
Qed.

(** ** Range and shape of [phaseOpacity] *)

(** The result is in [0,1] whatever the argument. *)
Lemma phaseOpacity_unit_interval (x : Q) : 0 <= phaseOpacity x <= 1.
Proof.
  pose proof (phaseOpacity_cases x) as Hc. cbv zeta in Hc.
  pose proof (clamp01_range x) as Hr.
  destruct Hc as [[A ->] | [[A [B ->]] | [[A [B ->]] | [A ->]]]]; lra.
Qed.

(** C5: for every [p] in [0,1], [phaseOpacity p] lies in [0,1]. *)
Theorem phaseOpacity_range (p : Q) :
  0 <= p <= 1 -> 0 <= phaseOpacity p <= 1.
Proof. intros _. apply phaseOpacity_unit_interval. Qed.

Lemma phaseOpacity_range_witness :
  0 <= 0.85 <= 1 /\ 0 <= phaseOpacity 0.85 <= 1.
Proof.
  assert (H : 0 <= 0.85 <= 1) by (split; discriminate).
  split; [exact H | apply (phaseOpacity_range 0.85 H)].
Defined.

(** [phaseOpacity] on an argument of [0,1], by the branch the argument
    itself falls in. *)
Lemma phaseOpacity_on_unit (p : Q) :
  0 <= p <= 1 ->
  (p <= 0.2 /\ phaseOpacity p == p * 5) \/
  (0.2 < p /\ p <= 0.7 /\ phaseOpacity p == 1) \/
  (0.7 < p /\ p <= 0.9 /\ phaseOpacity p == 1 - (p - 0.7) * 5) \/
  (0.9 < p /\ phaseOpacity p == 0).
Proof.
  intros Hp.
  pose proof (phaseOpacity_cases p) as Hc. cbv zeta in Hc.
  rewrite (clamp01_id p Hp) in Hc. exact Hc.
Qed.

(** Throughout the hold window, ends included, the opacity is 1. *)
Lemma phaseOpacity_hold (p : Q) : 0.2 <= p -> p <= 0.7 -> phaseOpacity p == 1.
Proof.
  intros Hlo Hhi.
  assert (Hp : 0 <= p <= 1) by lra.
  destruct (phaseOpacity_on_unit p Hp)
    as [[A ->] | [[A [B ->]] | [[A [B ->]] | [A ->]]]]; lra.
Qed.

(** C6: [phaseOpacity] is non-decreasing on [0, fadeInEnd], constant 1 on
    [fadeInEnd, holdEnd], non-increasing on [holdEnd, fadeOutEnd] and
    constant 0 on [fadeOutEnd, 1]. *)
Theorem phaseOpacity_monotone_phases :
  (forall p1 p2, 0 <= p1 -> p1 <= p2 -> p2 <= fadeInEnd TIMINGS ->
     phaseOpacity p1 <= phaseOpacity p2) /\
  (forall p, fadeInEnd TIMINGS <= p -> p <= holdEnd TIMINGS ->
     phaseOpacity p == 1) /\
  (forall p1 p2, holdEnd TIMINGS <= p1 -> p1 <= p2 -> p2 <= fadeOutEnd TIMINGS ->
     phaseOpacity p2 <= phaseOpacity p1) /\
  (forall p, fadeOutEnd TIMINGS <= p -> p <= 1 -> phaseOpacity p == 0).
Proof.
  cbn [fadeInEnd holdEnd fadeOutEnd TIMINGS].
  split; [| split; [| split]].
  - intros p1 p2 H0 H12 H2.
    assert (Hp1 : 0 <= p1 <= 1) by lra.
    assert (Hp2 : 0 <= p2 <= 1) by lra.
    destruct (phaseOpacity_on_unit p1 Hp1)
      as [[A ->] | [[A [B ->]] | [[A [B ->]] | [A ->]]]];
      destruct (phaseOpacity_on_unit p2 Hp2)
      as [[C ->] | [[C [D ->]] | [[C [D ->]] | [C ->]]]]; lra.
  - intros p Hlo Hhi.
    assert (Hp : 0 <= p <= 1) by lra.
    destruct (phaseOpacity_on_unit p Hp)
      as [[A ->] | [[A [B ->]] | [[A [B ->]] | [A ->]]]]; lra.
  - intros p1 p2 H0 H12 H2.
    assert (Hp1 : 0 <= p1 <= 1) by lra.
    assert (Hp2 : 0 <= p2 <= 1) by lra.
    destruct (phaseOpacity_on_unit p1 Hp1)
      as [[A ->] | [[A [B ->]] | [[A [B ->]] | [A ->]]]];
      destruct (phaseOpacity_on_unit p2 Hp2)
      as [[C ->] | [[C [D ->]] | [[C [D ->]] | [C ->]]]]; lra.
  - intros p Hlo Hhi.
    assert (Hp : 0 <= p <= 1) by lra.
    destruct (phaseOpacity_on_unit p Hp)
      as [[A ->] | [[A [B ->]] | [[A [B ->]] | [A ->]]]]; lra.
Qed.

Lemma phaseOpacity_monotone_phases_witness :
  phaseOpacity 0.05 <= phaseOpacity 0.15 /\ phaseOpacity 0.5 == 1 /\
  phaseOpacity 0.85 <= phaseOpacity 0.75 /\ phaseOpacity 0.95 == 0.
Proof.
  destruct phaseOpacity_monotone_phases as [Hup [Hhold [Hdown Hzero]]].
  split; [| split; [| split]].
  - apply Hup; discriminate.
  - apply Hhold; discriminate.
  - apply Hdown; discriminate.
  - apply Hzero; discriminate.
Defined.

(** C9: [phaseOpacity] is defined on every rational: neither divisor of
    its body is zero, it clamps its argument first, so that
    [phaseOpacity x] is [phaseOpacity (clamp01 x)], and its value is always
    in [0,1]. *)
Theorem phaseOpacity_total_clamped (x : Q) :
  ~ fadeInEnd TIMINGS == 0 /\
  ~ fadeOutEnd TIMINGS - holdEnd TIMINGS == 0 /\
  phaseOpacity x == phaseOpacity (clamp01 x) /\
  0 <= phaseOpacity x <= 1.
Proof.
  split; [discriminate |]. split; [discriminate |].
  split; [| apply phaseOpacity_unit_interval].
  unfold phaseOpacity, phaseOpacityWith.
  rewrite clamp01_idem. reflexivity.
Qed.

(** ** The active index *)

#[export] Instance activeIndex_proper (N : Z) : Proper (Qeq ==> eq) (activeIndex N).
Proof.
  intros x y Hxy. unfold activeIndex.
  assert (Ht : clamp01 ((x - 0.2) / 0.5) == clamp01 ((y - 0.2) / 0.5))
    by (rewrite Hxy; reflexivity).
  f_equal. apply Qfloor_comp. rewrite Ht. reflexivity.
Qed.

(** The remapping of the hold window, with the division carried out. *)
Lemma remap_hold (p : Q) : (p - 0.2) / 0.5 == (p - 0.2) * 2.
Proof. field. Qed.


Lemma activeIndex_before_hold (N : Z) (p : Q) :
  (1 <= N)%Z -> p < 0.2 -> activeIndex N p = 0%Z.
Proof.
  intros HN Hp. unfold activeIndex.
  pose proof (remap_hold p) as Hr.
  destruct (clamp01_cases ((p - 0.2) / 0.5)) as [[_ ->] | [[H _] | [H _]]];
    [| exfalso; lra | exfalso; lra].
  rewrite (Qfloor_comp (0 * inject_Z N) 0) by ring.
  change (Qfloor 0) with 0%Z. lia.
Qed.

Lemma activeIndex_after_hold (N : Z) (p : Q) :
  0.7 <= p -> activeIndex N p = (N - 1)%Z.
Proof.
  intros Hp. unfold activeIndex.
  pose proof (remap_hold p) as Hr.
  destruct (clamp01_cases ((p - 0.2) / 0.5)) as [[H _] | [[_ [H _]] | [_ ->]]];
    [exfalso; lra | exfalso; lra |].
  rewrite (Qfloor_comp (1 * inject_Z N) (inject_Z N)) by ring.
  rewrite Qfloor_Z. lia.
Qed.

(** ** What the multi-item callbacks write *)

Section MultiItemFacts.
Context {A : Type}.
Variable items : list A.
Variable p : Q.

Let N : Z := Z.of_nat (length items).





(** A ref that is not attached stays so, and nothing is written. *)
Lemma storyOnUpdate_detached (linesRef : list Ref) (i : nat) :
  linesRef !! i = Some None -> storyOnUpdate items p linesRef !! i = Some None.
Proof.
  intros Hi. unfold storyOnUpdate. rewrite list_lookup_imap, Hi. reflexivity.
Qed.

End MultiItemFacts.

(** ** Multi-item selection *)





(** ** Vertical offset *)






(** ** The thresholds *)

(** With thresholds in order the phase body stays within [0,1]. *)
Lemma phaseOpacityWith_ordered_range (T : PinTimings) (x : Q) :
  timingsOrdered T -> 0 <= phaseOpacityWith T x <= 1.
Proof.
  intros (Hf & Hfh & Hho & Ho1). unfold phaseOpacityWith.
  pose proof (clamp01_range x) as [Hp0 Hp1].
  set (p := clamp01 x) in *.
  case_Qle p (fadeInEnd T) H1.
  - split.
    + apply Qle_shift_div_l; [exact Hf | lra].
    + apply Qle_shift_div_r; [exact Hf | lra].
  - case_Qle p (holdEnd T) H2; [lra |].
    case_Qle p (fadeOutEnd T) H3; [| lra].
    assert (Hd : 0 < fadeOutEnd T - holdEnd T) by lra.
    assert (Hq0 : 0 <= (p - holdEnd T) / (fadeOutEnd T - holdEnd T))
      by (apply Qle_shift_div_l; [exact Hd | lra]).
    assert (Hq1 : (p - holdEnd T) / (fadeOutEnd T - holdEnd T) <= 1)
      by (apply Qle_shift_div_r; [exact Hd | lra]).
    lra.
Qed.

(** The thresholds the code reads are in the required order. *)
Lemma TIMINGS_ordered : timingsOrdered TIMINGS.
Proof.
  unfold timingsOrdered, TIMINGS. cbn.
  split; [reflexivity | split; [reflexivity | split; [reflexivity | discriminate]]].
Qed.

(** ** Pin registration and the end-to-end scenario *)

#[export] Instance progressAt_proper :
  Proper (Qeq ==> Qeq ==> Qeq ==> Qeq) progressAt.
Proof.
  intros s1 s2 Hs d1 d2 Hd v1 v2 Hv. unfold progressAt.
  rewrite Hs, Hd, Hv. reflexivity.
Qed.

(** A registration is made exactly when the trigger element is attached,
    and its range is [pinRange] of the options. *)
Lemma usePinnedSection_registers {Dom' : Type} (h : Q)
    (opts : UsePinnedSectionOptions Dom') :
  pinRef opts = Some tt ->
  exists st, usePinnedSection h opts = Some st /\
             st_end st = pinRange (pinDurationVh opts) h /\
             st_onUpdate st = (fun progress => onUpdate opts progress).
Proof.
  intros Hatt. unfold usePinnedSection. rewrite Hatt.
  eexists. split; [reflexivity | split; reflexivity].
Qed.

(** Without a trigger element nothing is registered. *)
Lemma usePinnedSection_detached {Dom' : Type} (h : Q)
    (opts : UsePinnedSectionOptions Dom') :
  pinRef opts = None -> usePinnedSection h opts = None.
Proof. intros Hdet. unfold usePinnedSection. rewrite Hdet. reflexivity. Qed.



(** ** The sample points over binary64

    The values the spec names, evaluated with correctly rounded binary64
    arithmetic: they are the values of the exact model. *)

Example f64_phaseOpacity_points :
  F64.phaseOpacity 0 = 0%float /\ F64.phaseOpacity 0.2 = 1%float /\
  F64.phaseOpacity 0.7 = 1%float /\ F64.phaseOpacity 0.9 = 0%float /\
  F64.phaseOpacity 1 = 0%float /\ F64.phaseOpacity 0.1 = 0.5%float.
Proof. vm_compute. repeat split. Qed.

Example f64_activeIndex_points :
  F64.activeIndex 3 0.2 = 0%float /\ F64.activeIndex 3 0.45 = 1%float /\
  F64.activeIndex 3 0.7 = 2%float /\ F64.activeIndex 3 0.1 = 0%float /\
  F64.activeIndex 3 0.9 = 2%float.
Proof. vm_compute. repeat split. Qed.

Example f64_clamp01_points :
  F64.clamp01 (-3) = 0%float /\ F64.clamp01 5 = 1%float /\
  F64.clamp01 0.5 = 0.5%float /\ F64.clamp01 infinity = 1%float /\
  F64.clamp01 neg_infinity = 0%float.
Proof. vm_compute. repeat split. Qed.

Example f64_scenario :
  F64.pinRange None 800 = 1600%float /\
  F64.pinRange (Some 200%float) 800 = 1600%float /\
  (320 / 1600 = 0.2)%float /\
  F64.phaseOpacity (320 / 1600) = 1%float /\
  F64.activeIndex 3 (320 / 1600) = 0%float.
Proof. vm_compute. repeat split. Qed.

(** * Further properties of the code *)

(** ** [clamp01] and the order *)

Lemma clamp01_le (a b : Q) : a <= b -> clamp01 a <= clamp01 b.
Proof.
  intros Hab.
  destruct (clamp01_cases a) as [[A ->] | [[A [A' ->]] | [A ->]]];
    destruct (clamp01_cases b) as [[B ->] | [[B [B' ->]] | [B ->]]]; lra.
Qed.

Lemma clamp01_gap (a b : Q) : a <= b -> clamp01 b - clamp01 a <= b - a.
Proof.
  intros Hab.
  destruct (clamp01_cases a) as [[A ->] | [[A [A' ->]] | [A ->]]];
    destruct (clamp01_cases b) as [[B ->] | [[B [B' ->]] | [B ->]]]; lra.
Qed.

(** X2: [clamp01] is monotone and never stretches a distance: for
    [a <= b], [0 <= clamp01 b - clamp01 a <= b - a]. *)
Theorem clamp01_monotone_nonexpansive (a b : Q) :
  a <= b -> clamp01 a <= clamp01 b /\ clamp01 b - clamp01 a <= b - a.
Proof. intros Hab. split; [apply clamp01_le | apply clamp01_gap]; exact Hab. Qed.

Lemma clamp01_monotone_nonexpansive_witness :
  clamp01 (-1) <= clamp01 0.5 /\ clamp01 0.5 - clamp01 (-1) <= 0.5 - (-1).
Proof. apply (clamp01_monotone_nonexpansive (-1) 0.5). discriminate. Defined.

(** ** Level sets of [phaseOpacity] *)

(** Where the opacity is 0. *)
Lemma phaseOpacity_zero_iff (p : Q) :
  phaseOpacity p == 0 <-> (p <= 0 \/ 0.9 <= p).
Proof.
  pose proof (phaseOpacity_cases p) as Hc. cbv zeta in Hc.
  destruct (clamp01_cases p) as [[H0 Hc0] | [[H0 [H1 Hc0]] | [H1 Hc0]]];
    rewrite Hc0 in Hc;
    destruct Hc as [[C ->] | [[C [D ->]] | [[C [D ->]] | [C ->]]]];
    split; intros H; try lra;
    try (destruct H; lra); try (left; lra); try (right; lra).
Qed.

(** Where the opacity is 1. *)
Lemma phaseOpacity_one_iff (p : Q) :
  phaseOpacity p == 1 <-> (0.2 <= p /\ p <= 0.7).
Proof.
  pose proof (phaseOpacity_cases p) as Hc. cbv zeta in Hc.
  destruct (clamp01_cases p) as [[H0 Hc0] | [[H0 [H1 Hc0]] | [H1 Hc0]]];
    rewrite Hc0 in Hc;
    destruct Hc as [[C ->] | [[C [D ->]] | [[C [D ->]] | [C ->]]]];
    split; intros H; try lra; try (split; lra).
Qed.

(** X4: the opacity is 0 exactly for progress at or below 0 and at or
    above 0.9, it is 1 exactly on [0.2, 0.7], and strictly between 0 and 1
    everywhere else. *)
Theorem phaseOpacity_level_sets (p : Q) :
  (phaseOpacity p == 0 <-> (p <= 0 \/ 0.9 <= p)) /\
  (phaseOpacity p == 1 <-> (0.2 <= p /\ p <= 0.7)) /\
  ((0 < p /\ p < 0.2) \/ (0.7 < p /\ p < 0.9) <->
   (0 < phaseOpacity p /\ phaseOpacity p < 1)).
Proof.
  pose proof (phaseOpacity_zero_iff p) as Hz.
  pose proof (phaseOpacity_one_iff p) as Ho.
  pose proof (phaseOpacity_unit_interval p) as Hr.
  split; [exact Hz | split; [exact Ho |]].
  split.
  - intros Hmid. split.
    + apply Qnot_le_lt. intros Hle.
      assert (E : phaseOpacity p == 0) by lra.
      apply Hz in E. lra.
    + apply Qnot_le_lt. intros Hle.
      assert (E : phaseOpacity p == 1) by lra.
      apply Ho in E. lra.
  - intros [Hpos Hlt1].
    destruct (Qlt_le_dec 0 p) as [H0 | H0];
      [| exfalso; assert (E : phaseOpacity p == 0) by (apply Hz; left; exact H0); lra].
    destruct (Qlt_le_dec p 0.9) as [H9 | H9];
      [| exfalso; assert (E : phaseOpacity p == 0) by (apply Hz; right; exact H9); lra].
    destruct (Qlt_le_dec p 0.2) as [H2 | H2]; [left; split; assumption |].
    destruct (Qlt_le_dec 0.7 p) as [H7 | H7]; [right; split; assumption |].
    exfalso. assert (E : phaseOpacity p == 1) by (apply Ho; split; assumption). lra.
Qed.

(** ** The phase body over any ordered thresholds *)

Lemma Qdiv_same (a b : Q) : a == b -> ~ b == 0 -> a / b == 1.
Proof.
  intros Hab Hb. rewrite Hab. unfold Qdiv. apply Qmult_inv_r. exact Hb.
Qed.

(** X5: with any thresholds in the order
    [0 < fadeInEnd < holdEnd < fadeOutEnd <= 1] the phase body keeps the
    pulse shape: values in [0,1], 0 at progress 0 and below, 1 from
    [fadeInEnd] to [holdEnd], and 0 from [fadeOutEnd] on. *)
Theorem phaseOpacityWith_ordered_shape (T : PinTimings) :
  timingsOrdered T ->
  (forall x, 0 <= phaseOpacityWith T x <= 1) /\
  (forall x, x <= 0 -> phaseOpacityWith T x == 0) /\
  (forall x, fadeInEnd T <= x -> x <= holdEnd T -> phaseOpacityWith T x == 1) /\
  (forall x, fadeOutEnd T <= x -> phaseOpacityWith T x == 0).
Proof.
  intros HT. pose proof HT as (Hf & Hfh & Hho & Ho1).
  split; [intros x; apply phaseOpacityWith_ordered_range; exact HT |].
  split; [| split].
  - intros x Hx. unfold phaseOpacityWith.
    destruct (clamp01_cases x) as [[_ ->] | [[H _] | [H _]]];
      [| exfalso; lra | exfalso; lra].
    case_Qle 0 (fadeInEnd T) H1; [| exfalso; lra].
    unfold Qdiv. ring.
  - intros x Hlo Hhi. unfold phaseOpacityWith.
    assert (Hid : clamp01 x == x) by (apply clamp01_id; lra).
    pose proof (clamp01_range x) as Hr.
    set (p := clamp01 x) in *.
    case_Qle p (fadeInEnd T) H1.
    + apply Qdiv_same; lra.
    + case_Qle p (holdEnd T) H2; [reflexivity | exfalso; lra].
  - intros x Hx. unfold phaseOpacityWith.
    pose proof (clamp01_range x) as Hr.
    assert (Hp : fadeOutEnd T <= clamp01 x).
    { destruct (clamp01_cases x) as [[H _] | [[_ [_ ->]] | [_ ->]]]; lra. }
    set (p := clamp01 x) in *.
    case_Qle p (fadeInEnd T) H1; [exfalso; lra |].
    case_Qle p (holdEnd T) H2; [exfalso; lra |].
    case_Qle p (fadeOutEnd T) H3; [| reflexivity].
    assert (E : (p - holdEnd T) / (fadeOutEnd T - holdEnd T) == 1)
      by (apply Qdiv_same; lra).
    rewrite E. reflexivity.
Qed.

Lemma phaseOpacityWith_ordered_shape_witness :
  0 <= phaseOpacityWith TIMINGS 0.1 <= 1 /\
  phaseOpacityWith TIMINGS 0.3 == 1 /\
  phaseOpacityWith TIMINGS 0.95 == 0.
Proof.
  assert (HT : timingsOrdered TIMINGS).
  { unfold timingsOrdered, TIMINGS. cbn.
    split; [reflexivity | split; [reflexivity | split; [reflexivity | discriminate]]]. }
  destruct (phaseOpacityWith_ordered_shape TIMINGS HT) as (Hr & _ & Hone & Hzero).
  split; [apply Hr | split; [apply Hone; discriminate | apply Hzero; discriminate]].
Defined.

(** ** Monotonicity of the active index *)

(** X6: the active index never goes back as progress grows: for a list of
    any length, [p1 <= p2] gives [activeIndex N p1 <= activeIndex N p2]. *)
Theorem activeIndex_monotone (N : Z) (p1 p2 : Q) :
  (0 <= N)%Z -> p1 <= p2 -> (activeIndex N p1 <= activeIndex N p2)%Z.
Proof.
  intros HN H12. unfold activeIndex.
  assert (Hx : (p1 - 0.2) / 0.5 <= (p2 - 0.2) / 0.5)
    by (rewrite !remap_hold; lra).
  apply clamp01_le in Hx.
  assert (HNq : 0 <= inject_Z N)
    by (change 0 with (inject_Z 0); rewrite <- Zle_Qle; exact HN).
  pose proof (Qmult_le_compat_r _ _ _ Hx HNq) as Hprod.
  apply Qfloor_resp_le in Hprod. lia.
Qed.

Lemma activeIndex_monotone_witness :
  (activeIndex 3 0.3 <= activeIndex 3 0.6)%Z.
Proof. apply activeIndex_monotone; [lia | discriminate]. Defined.

(** ** What every callback keeps *)

Section CallbackFacts.
Context {A : Type}.
Variable items : list A.

Let idx (p : Q) : Z := activeIndex (Z.of_nat (length items)) p.

(** What an element written by one of the three multi-item callbacks
    looks like, and that it was attached before. *)
Lemma storyOnUpdate_written (p : Q) (refs : list Ref) (i : nat) (el' : Style) :
  storyOnUpdate items p refs !! i = Some (Some el') ->
  attachedAt refs i /\
  style_opacity el' = (if Z.eqb (Z.of_nat i) (idx p) then phaseOpacity p else 0) /\
  style_transform el' =
    Some (if Z.eqb (Z.of_nat i) (idx p) then translateY 0 else translateY 10).
Proof.
  unfold storyOnUpdate. rewrite list_lookup_imap.
  destruct (refs !! i) as [[el |] |] eqn:E; cbn; intros H; try discriminate.
  injection H as <-. split; [exists el; exact E | split; reflexivity].
Qed.

Lemma visualsOnUpdate_written (p : Q) (refs : list Ref) (i : nat) (el' : Style) :
  visualsOnUpdate items p refs !! i = Some (Some el') ->
  (exists el, refs !! i = Some (Some el) /\ style_transform el' = style_transform el) /\
  style_opacity el' = (if Z.eqb (Z.of_nat i) (idx p) then phaseOpacity p else 0).
Proof.
  unfold visualsOnUpdate. rewrite list_lookup_imap.
  destruct (refs !! i) as [[el |] |] eqn:E; cbn; intros H; try discriminate.
  injection H as <-. split; [exists el; split; reflexivity | reflexivity].
Qed.

Lemma craftOnUpdate_written (p : Q) (refs : list Ref) (i : nat) (el' : Style) :
  craftOnUpdate items p refs !! i = Some (Some el') ->
  attachedAt refs i /\
  style_opacity el' = (if Z.eqb (Z.of_nat i) (idx p) then phaseOpacity p else 0) /\
  style_transform el' =
    Some (if Z.eqb (Z.of_nat i) (idx p) then translateY 0 else translateY 10).
Proof.
  unfold craftOnUpdate. rewrite list_lookup_imap.
  destruct (refs !! i) as [[el |] |] eqn:E; cbn; intros H; try discriminate.
  injection H as <-. split; [exists el; exact E | split; reflexivity].
Qed.

(** The callbacks keep the length of the ref array and which refs are
    attached. *)
Lemma multi_attachment (p : Q) (refs : list Ref) :
  (length (storyOnUpdate items p refs) = length refs /\
   forall i, attachedAt (storyOnUpdate items p refs) i <-> attachedAt refs i) /\
  (length (visualsOnUpdate items p refs) = length refs /\
   forall i, attachedAt (visualsOnUpdate items p refs) i <-> attachedAt refs i) /\
  (length (craftOnUpdate items p refs) = length refs /\
   forall i, attachedAt (craftOnUpdate items p refs) i <-> attachedAt refs i).
Proof.
  unfold attachedAt, storyOnUpdate, visualsOnUpdate, craftOnUpdate.
  split; [| split]; (split; [apply length_imap |]); intros i;
    rewrite list_lookup_imap;
    destruct (refs !! i) as [[el |] |]; cbn;
    (split; intros [el' H]; try discriminate; eexists; reflexivity).
Qed.

(** A later call overwrites all that an earlier call wrote. *)
Lemma multi_last_write (p1 p2 : Q) (refs : list Ref) :
  storyOnUpdate items p2 (storyOnUpdate items p1 refs) = storyOnUpdate items p2 refs /\
  visualsOnUpdate items p2 (visualsOnUpdate items p1 refs) = visualsOnUpdate items p2 refs /\
  craftOnUpdate items p2 (craftOnUpdate items p1 refs) = craftOnUpdate items p2 refs.
Proof.
  unfold storyOnUpdate, visualsOnUpdate, craftOnUpdate.
  split; [| split]; apply list_eq; intros i;
    rewrite !list_lookup_imap;
    destruct (refs !! i) as [[el |] |]; reflexivity.
Qed.
End CallbackFacts.

(** What a single-target callback writes, and that the ref was attached. *)
Lemma single_written (p : Q) (r : Ref) (el' : Style) :
  PinnedHero_onUpdate p r = Some el' \/ PinnedDiamondReveal_onUpdate p r = Some el' ->
  (exists el, r = Some el) /\
  style_opacity el' = phaseOpacity p /\
  style_transform el' = Some (translateY ((1 - phaseOpacity p) * 10)).
Proof.
  unfold PinnedHero_onUpdate, PinnedDiamondReveal_onUpdate.
  intros [H | H]; destruct r as [el |]; try discriminate;
    injection H as <-; (split; [exists el; reflexivity | split; reflexivity]).
Qed.

Lemma lookup_singleton_Some {B : Type} (x y : B) (i : nat) :
  [x] !! i = Some y -> i = 0%nat /\ x = y.
Proof.
  destruct i as [| i]; cbn; intros H; [injection H as <-; split; reflexivity |].
  destruct i; discriminate.
Qed.

(** The opacity a section's callback writes at index [i] is
    [phaseOpacity p] or the literal 0, and two different indices never
    both get [phaseOpacity p]. *)
Lemma section_written_opacity (s : PinnedSection) (p : Q) (d : Dom s)
    (i : nat) (el' : Style) :
  targets s (sectionOnUpdate s p d) !! i = Some (Some el') ->
  exists active : bool,
    style_opacity el' = (if active then phaseOpacity p else 0) /\
    (active = true ->
     forall j el'', targets s (sectionOnUpdate s p d) !! j = Some (Some el'') ->
       j <> i -> style_opacity el'' = 0).
Proof.
  destruct s; cbn; intros H.
  - apply lookup_singleton_Some in H as [-> H].
    exists true. split; [apply (single_written p d el'); left; exact H |].
    intros _ j el'' Hj Hne. apply lookup_singleton_Some in Hj as [-> _]. congruence.
  - apply lookup_singleton_Some in H as [-> H].
    exists true. split; [apply (single_written p d el'); right; exact H |].
    intros _ j el'' Hj Hne. apply lookup_singleton_Some in Hj as [-> _]. congruence.
  - apply storyOnUpdate_written in H as (_ & Ho & _).
    exists (Z.eqb (Z.of_nat i) (activeIndex (Z.of_nat (length storyLines)) p)).
    split; [exact Ho |]. intros Hact j el'' Hj Hne.
    apply storyOnUpdate_written in Hj as (_ & Hoj & _). rewrite Hoj.
    apply Z.eqb_eq in Hact.
    destruct (Z.eqb_spec (Z.of_nat j) (activeIndex (Z.of_nat (length storyLines)) p));
      [lia | reflexivity].
  - apply visualsOnUpdate_written in H as (_ & Ho).
    exists (Z.eqb (Z.of_nat i) (activeIndex (Z.of_nat (length visualImages)) p)).
    split; [exact Ho |]. intros Hact j el'' Hj Hne.
    apply visualsOnUpdate_written in Hj as (_ & Hoj). rewrite Hoj.
    apply Z.eqb_eq in Hact.
    destruct (Z.eqb_spec (Z.of_nat j) (activeIndex (Z.of_nat (length visualImages)) p));
      [lia | reflexivity].
  - apply craftOnUpdate_written in H as (_ & Ho & _).
    exists (Z.eqb (Z.of_nat i) (activeIndex (Z.of_nat (length craftBlocks)) p)).
    split; [exact Ho |]. intros Hact j el'' Hj Hne.
    apply craftOnUpdate_written in Hj as (_ & Hoj & _). rewrite Hoj.
    apply Z.eqb_eq in Hact.
    destruct (Z.eqb_spec (Z.of_nat j) (activeIndex (Z.of_nat (length craftBlocks)) p));
      [lia | reflexivity].
Qed.

(** X8: whatever the progress and whichever refs are attached, a callback
    leaves at most one target of its section with an opacity other than 0. *)
Theorem at_most_one_lit (s : PinnedSection) (p : Q) (d : Dom s)
    (i j : nat) (eli elj : Style) :
  targets s (sectionOnUpdate s p d) !! i = Some (Some eli) ->
  targets s (sectionOnUpdate s p d) !! j = Some (Some elj) ->
  i <> j ->
  style_opacity eli = 0 \/ style_opacity elj = 0.
Proof.
  intros Hi Hj Hne.
  destruct (section_written_opacity s p d i eli Hi) as ([|] & Ho & Huniq).
  - right. apply (Huniq eq_refl j elj Hj). congruence.
  - left. exact Ho.
Qed.

Lemma at_most_one_lit_witness :
  exists eli elj,
    PinnedStory_onUpdate 0.1 mountedLines !! 0%nat = Some (Some eli) /\
    PinnedStory_onUpdate 0.1 mountedLines !! 2%nat = Some (Some elj) /\
    (style_opacity eli = 0 \/ style_opacity elj = 0).
Proof.
  eexists. eexists. split; [reflexivity |]. split; [reflexivity |].
  apply (at_most_one_lit Story 0.1 mountedLines 0 2);
    [reflexivity | reflexivity | lia].
Defined.

(** X9: every opacity a callback writes is in [0,1], and every vertical
    offset it writes is between 0 and 10 px, for any progress value. *)
Theorem written_styles_bounded (s : PinnedSection) (p : Q) (d : Dom s)
    (i : nat) (el' : Style) :
  targets s (sectionOnUpdate s p d) !! i = Some (Some el') ->
  0 <= style_opacity el' <= 1 /\
  (s <> AIGeneratedVisuals ->
   exists y, style_transform el' = Some (translateY y) /\ 0 <= y <= 10).
Proof.
  intros H. pose proof (phaseOpacity_unit_interval p) as Hr.
  split.
  - destruct (section_written_opacity s p d i el' H) as ([|] & -> & _); lra.
  - intros Hs. destruct s; cbn in H; try congruence.
    + apply lookup_singleton_Some in H as [_ H].
      destruct (single_written p d el' (or_introl H)) as (_ & _ & ->).
      eexists. split; [reflexivity | lra].
    + apply lookup_singleton_Some in H as [_ H].
      destruct (single_written p d el' (or_intror H)) as (_ & _ & ->).
      eexists. split; [reflexivity | lra].
    + apply storyOnUpdate_written in H as (_ & _ & ->).
      destruct (Z.eqb _ _); eexists; (split; [reflexivity | lra]).
    + apply craftOnUpdate_written in H as (_ & _ & ->).
      destruct (Z.eqb _ _); eexists; (split; [reflexivity | lra]).
Qed.

Lemma written_styles_bounded_witness :
  exists el',
    PinnedHero_onUpdate 0.1 (Some hiddenStyle) = Some el' /\
    0 <= style_opacity el' <= 1.
Proof.
  eexists. split; [reflexivity |].
  apply (written_styles_bounded Hero 0.1 (Some hiddenStyle) 0). reflexivity.
Defined.

(** X10: before the pin range and from 90% of it on, every target of
    every section is left fully transparent. *)
Theorem hidden_outside_pulse (s : PinnedSection) (p : Q) (d : Dom s)
    (i : nat) (el' : Style) :
  p <= 0 \/ 0.9 <= p ->
  targets s (sectionOnUpdate s p d) !! i = Some (Some el') ->
  style_opacity el' == 0.
Proof.
  intros Hp H.
  apply phaseOpacity_zero_iff in Hp.
  destruct (section_written_opacity s p d i el' H) as ([|] & -> & _);
    [exact Hp | reflexivity].
Qed.

Lemma hidden_outside_pulse_witness :
  exists el',
    PinnedCraftsmanship_onUpdate 1 mountedLines !! 2%nat = Some (Some el') /\
    style_opacity el' == 0.
Proof.
  eexists. split; [reflexivity |].
  apply (hidden_outside_pulse Craftsmanship 1 mountedLines 2);
    [right; discriminate | reflexivity].
Defined.

(** X11: a callback never attaches or detaches anything: the section has
    as many refs after the call as before, and a ref is attached after the
    call exactly when it was before; a detached ref gets no style. *)
Theorem attachment_preserved (s : PinnedSection) (p : Q) (d : Dom s) :
  length (targets s (sectionOnUpdate s p d)) = length (targets s d) /\
  forall i, attachedAt (targets s (sectionOnUpdate s p d)) i <->
            attachedAt (targets s d) i.
Proof.
  destruct s; cbn.
  - split; [reflexivity |]. intros i. unfold attachedAt, PinnedHero_onUpdate.
    destruct i as [| i]; cbn;
      [| split; intros [el H]; destruct i; discriminate].
    destruct d as [el0 |]; split; intros [el H]; try discriminate; eexists; reflexivity.
  - split; [reflexivity |]. intros i. unfold attachedAt, PinnedDiamondReveal_onUpdate.
    destruct i as [| i]; cbn;
      [| split; intros [el H]; destruct i; discriminate].
    destruct d as [el0 |]; split; intros [el H]; try discriminate; eexists; reflexivity.
  - apply (multi_attachment storyLines p d).
  - apply (multi_attachment visualImages p d).
  - apply (multi_attachment craftBlocks p d).
Qed.

(** X12: the state a callback leaves depends on the latest progress
    only: a call at [p2] after a call at [p1] leaves what a single call at
    [p2] leaves; in particular repeating a call changes nothing. *)
Theorem last_write_wins (s : PinnedSection) (p1 p2 : Q) (d : Dom s) :
  sectionOnUpdate s p2 (sectionOnUpdate s p1 d) = sectionOnUpdate s p2 d /\
  sectionOnUpdate s p2 (sectionOnUpdate s p2 d) = sectionOnUpdate s p2 d.
Proof.
  assert (H : forall q1 q2,
             sectionOnUpdate s q2 (sectionOnUpdate s q1 d) = sectionOnUpdate s q2 d).
  { intros q1 q2. destruct s; cbn.
    - destruct d; reflexivity.
    - destruct d; reflexivity.
    - apply (multi_last_write storyLines q1 q2 d).
    - apply (multi_last_write visualImages q1 q2 d).
    - apply (multi_last_write craftBlocks q1 q2 d). }
  split; apply H.
Qed.

(** ** The frame loop of [useLenis] *)

Lemma raf_on_empty_queue (time : Q) (w : LenisLoop) :
  pending w = ∅ ->
  raf time w =
    {| lenis_config := lenis_config w;
       lenis_calls := lenis_calls w ++ [CallRaf time];
       rafId := nextHandle w;
       nextHandle := S (nextHandle w);
       pending := {[nextHandle w]} |}.
Proof.
  intros He. unfold raf, requestAnimationFrame. cbn. rewrite He.
  f_equal. apply (right_id_L ∅ (∪)).
Qed.

(** A frame with exactly the handle [rafId] waiting runs [raf] once. *)
Lemma animationFrame_single (w : LenisLoop) (time : Q) :
  pending w = {[rafId w]} ->
  animationFrame w time =
    {| lenis_config := lenis_config w;
       lenis_calls := lenis_calls w ++ [CallRaf time];
       rafId := nextHandle w;
       nextHandle := S (nextHandle w);
       pending := {[nextHandle w]} |}.
Proof.
  intros Hp. unfold animationFrame. rewrite Hp, elements_singleton. cbn [foldl].
  rewrite raf_on_empty_queue by reflexivity. reflexivity.
Qed.

(** A frame with nothing waiting changes nothing. *)
Lemma animationFrame_idle (w : LenisLoop) (time : Q) :
  pending w = ∅ -> animationFrame w time = w.
Proof.
  intros Hp. unfold animationFrame. rewrite Hp, elements_empty. cbn [foldl].
  destruct w as [c l r n q]. cbn in *. rewrite Hp. reflexivity.
Qed.

(** The state after mounting and running the frames at [times]. *)
Lemma useLenis_running (firstHandle : nat) (times : list Q) :
  animationFrames (useLenis_mount firstHandle) times =
    {| lenis_config := lenisOptions;
       lenis_calls := CallRaf <$> times;
       rafId := firstHandle + length times;
       nextHandle := S (firstHandle + length times);
       pending := {[ (firstHandle + length times)%nat ]} |}.
Proof.
  induction times as [| t times IH] using rev_ind.
  - cbn. unfold useLenis_mount, requestAnimationFrame. cbn.
    rewrite Nat.add_0_r. f_equal. apply (right_id_L ∅ (∪)).
  - unfold animationFrames in *. rewrite foldl_snoc, IH.
    rewrite animationFrame_single by reflexivity. cbn.
    rewrite fmap_app, length_app. cbn.
    replace (firstHandle + (length times + 1))%nat
      with (S (firstHandle + length times)) by lia.
    reflexivity.
Qed.

(** X13: while the effect is mounted, after any number of frames exactly
    one callback is waiting and [rafId] is its handle; [lenis.raf] has been
    called once per frame, with the frame times in order, and the
    instance has not been destroyed. *)
Theorem useLenis_loop_invariant (firstHandle : nat) (times : list Q) :
  let w := animationFrames (useLenis_mount firstHandle) times in
  pending w = {[rafId w]} /\
  rafId w = (firstHandle + length times)%nat /\
  lenis_calls w = CallRaf <$> times /\
  CallDestroy ∉ lenis_calls w.
Proof.
  cbv zeta. rewrite useLenis_running. cbn.
  split; [reflexivity |]. split; [reflexivity |]. split; [reflexivity |].
  intros Hin. apply list_elem_of_fmap in Hin as (t & Ht & _). discriminate.
Qed.

(** X14: the cleanup, run after any number of frames, leaves no callback
    waiting, and [lenis.destroy()] is the last call ever made on the
    instance: later frames find nothing to run and leave the state as it
    is. *)
Theorem useLenis_cleanup_final (firstHandle : nat) (times later : list Q) :
  let w := useLenis_cleanup (animationFrames (useLenis_mount firstHandle) times) in
  pending w = ∅ /\
  lenis_calls w = (CallRaf <$> times) ++ [CallDestroy] /\
  animationFrames w later = w.
Proof.
  cbv zeta. rewrite useLenis_running.
  unfold useLenis_cleanup, cancelAnimationFrame. cbn.
  assert (He : ({[(firstHandle + length times)%nat]} : gset nat)
               ∖ {[(firstHandle + length times)%nat]} = ∅) by apply difference_diag_L.
  rewrite He.
  split; [reflexivity |]. split; [reflexivity |].
  unfold animationFrames.
  induction later as [| t later IH]; [reflexivity |].
  cbn [foldl]. rewrite animationFrame_idle by reflexivity. exact IH.
Qed.

(** ** Which items can be seen fading *)

(** An active index other than the first and the last is only reached
    inside the hold window. *)
Lemma activeIndex_inner_hold (N : Z) (p : Q) :
  (0 < activeIndex N p)%Z -> (activeIndex N p < N - 1)%Z ->
  0.2 <= p /\ p <= 0.7.
Proof.
  intros Hlo Hhi.
  assert (HN : (1 <= N)%Z).
  { unfold activeIndex in Hlo, Hhi. lia. }
  split.
  - apply Qnot_lt_le. intros Hp.
    rewrite (activeIndex_before_hold N p HN Hp) in Hlo. lia.
  - apply Qnot_lt_le. intros Hp.
    rewrite (activeIndex_after_hold N p) in Hhi by lra. lia.
Qed.

(** X16: only the first item is ever seen fading in and only the last
    fading out: an item at an index strictly between the first and the last
    is written either the opacity 0 or an opacity equal to 1, by each of the
    three multi-item callbacks. *)
Theorem inner_items_full_or_hidden (A : Type) (items : list A) (p : Q)
    (refs : list Ref) (i : nat) (el' : Style) :
  storyOnUpdate items p refs !! i = Some (Some el') \/
  visualsOnUpdate items p refs !! i = Some (Some el') \/
  craftOnUpdate items p refs !! i = Some (Some el') ->
  (0 < i)%nat -> (i < length items - 1)%nat ->
  style_opacity el' = 0 \/ style_opacity el' == 1.
Proof.
  intros Hw Hi0 HiN.
  assert (Ho : style_opacity el' =
               (if Z.eqb (Z.of_nat i) (activeIndex (Z.of_nat (length items)) p)
                then phaseOpacity p else 0)).
  { destruct Hw as [H | [H | H]].
    - apply storyOnUpdate_written in H as (_ & Ho & _). exact Ho.
    - apply visualsOnUpdate_written in H as (_ & Ho). exact Ho.
    - apply craftOnUpdate_written in H as (_ & Ho & _). exact Ho. }
  rewrite Ho.
  destruct (Z.eqb_spec (Z.of_nat i) (activeIndex (Z.of_nat (length items)) p))
    as [E | _]; [right | left; reflexivity].
  destruct (activeIndex_inner_hold (Z.of_nat (length items)) p) as [Hlo Hhi];
    [lia | lia |].
  apply phaseOpacity_hold; assumption.
Qed.

Lemma inner_items_full_or_hidden_witness :
  exists el',
    storyOnUpdate storyLines 0.45 mountedLines !! 1%nat = Some (Some el') /\
    (style_opacity el' = 0 \/ style_opacity el' == 1).
Proof.
  eexists. split; [reflexivity |].
  apply (inner_items_full_or_hidden string storyLines 0.45 mountedLines 1);
    [left; reflexivity | lia | cbn; lia].
Defined.

(** ** Registration *)

(** X17: [usePinnedSection] registers nothing exactly when the trigger
    element is missing; a registration carries the section's id, pins and
    scrubs, hands the progress unchanged to the section's callback, and has
    a positive range whenever the viewport height is positive and the
    duration is absent or positive. *)
Theorem usePinnedSection_registration (Dom' : Type) (h : Q)
    (opts : UsePinnedSectionOptions Dom') :
  (usePinnedSection h opts = None <-> pinRef opts = None) /\
  forall st, usePinnedSection h opts = Some st ->
    st_id st = id opts /\
    st_pin st = true /\ st_pinSpacing st = true /\ st_scrub st = true /\
    (forall progress dom, st_onUpdate st progress dom = onUpdate opts progress dom) /\
    (0 < h -> (forall d, pinDurationVh opts = Some d -> 0 < d) -> 0 < st_end st).
Proof.
  unfold usePinnedSection.
  destruct (pinRef opts) as [u |] eqn:E.
  - split; [split; discriminate |].
    intros st Hst. injection Hst as <-. cbn.
    split; [reflexivity |]. split; [reflexivity |]. split; [reflexivity |].
    split; [reflexivity |]. split; [reflexivity |].
    intros Hh Hd. unfold pinRange.
    assert (Hdur : 0 < default 200 (pinDurationVh opts)).
    { destruct (pinDurationVh opts) as [d |]; cbn; [apply Hd; reflexivity | reflexivity]. }
    assert (Hh' : 0 < h / 100) by (apply Qlt_shift_div_l; [reflexivity | lra]).
    nra.
  - split; [split; reflexivity |]. intros st Hst. discriminate.
Qed.

(** ** Not-a-number progress *)

Lemma f64_eqb_nan (x : float) : PrimFloat.eqb x nan = false.
Proof.
  rewrite FloatAxioms.eqb_spec. change (Prim2SF nan) with S754_nan.
  unfold SFeqb, SFcompare. destruct (Prim2SF x); reflexivity.
Qed.

(** X18: over binary64, a NaN progress gives opacity 0, not NaN, and an
    active index that equals no item index, so that no item is active; an
    infinite progress gives opacity 0 as well. *)
Theorem f64_nan_progress_hides :
  F64.phaseOpacity nan = 0%float /\
  F64.phaseOpacity infinity = 0%float /\
  F64.phaseOpacity neg_infinity = 0%float /\
  forall i : float, PrimFloat.eqb i (F64.activeIndex 3 nan) = false.
Proof.
  split; [vm_compute; reflexivity |].
  split; [vm_compute; reflexivity |].
  split; [vm_compute; reflexivity |].
  intros i.
  assert (E : F64.activeIndex 3 nan = nan) by (vm_compute; reflexivity).
  rewrite E. apply f64_eqb_nan.
Qed.

(** * The numeric core over binary64 *)

(** ** Order of floats *)

(** [SFcompare] is the comparison of ranks. *)
Lemma SFcompare_rank (x y : spec_float) :
  match SFcompare x y with
  | None => SFrank x = None \/ SFrank y = None
  | Some c =>
      exists rx ry, SFrank x = Some rx /\ SFrank y = Some ry /\
        match c with
        | Lt => rank_lt rx ry
        | Eq => rx = ry
        | Gt => rank_lt ry rx
        end
  end.
Proof.
  destruct x as [sx | sx | | sx mx ex], y as [sy | sy | | sy my ey];
    try destruct sx; try destruct sy; cbn;
    try (left; reflexivity); try (right; reflexivity);
    try (eexists; eexists;
         split; [reflexivity | split; [reflexivity | cbn; try reflexivity; lia]]).
  - change (Pos.compare_cont Eq mx my) with (Pos.compare mx my).
    destruct (Z.compare_spec ex ey); [destruct (Pos.compare_spec mx my) | |]; cbn;
      eexists; eexists;
      (split; [reflexivity
              | split; [reflexivity | cbn; try (f_equal; [f_equal |]); lia]]).
  - change (Pos.compare_cont Eq mx my) with (Pos.compare mx my).
    destruct (Z.compare_spec ex ey); [destruct (Pos.compare_spec mx my) | |]; cbn;
      eexists; eexists;
      (split; [reflexivity
              | split; [reflexivity | cbn; try (f_equal; [f_equal |]); lia]]).
Qed.

Lemma rank_lt_trans (a b c : Z * Z * Z) : rank_lt a b -> rank_lt b c -> rank_lt a c.
Proof. destruct a as [[a1 a2] a3], b as [[b1 b2] b3], c as [[c1 c2] c3]. cbn. lia. Qed.

Lemma rank_lt_asym (a b : Z * Z * Z) : rank_lt a b -> ~ (rank_lt b a \/ b = a).
Proof.
  destruct a as [[a1 a2] a3], b as [[b1 b2] b3]. cbn.
  intros H [H' | H']; [lia | injection H' as -> -> ->; lia].
Qed.

Lemma rank_total (a b : Z * Z * Z) : rank_lt a b \/ a = b \/ rank_lt b a.
Proof.
  destruct a as [[a1 a2] a3], b as [[b1 b2] b3]. cbn.
  destruct (Z.lt_total a1 b1) as [H | [H | H]]; [lia | | lia].
  destruct (Z.lt_total a2 b2) as [H2 | [H2 | H2]]; [lia | | lia].
  destruct (Z.lt_total a3 b3) as [H3 | [H3 | H3]]; [lia | | lia].
  right; left. congruence.
Qed.

Lemma f64_ltb_rank (x y : float) :
  (x <? y)%float = true <->
  exists rx ry, f64_rank x = Some rx /\ f64_rank y = Some ry /\ rank_lt rx ry.
Proof.
  rewrite FloatAxioms.ltb_spec. unfold SFltb, f64_rank.
  pose proof (SFcompare_rank (Prim2SF x) (Prim2SF y)) as H.
  destruct (SFcompare (Prim2SF x) (Prim2SF y)) as [[| |] |].
  - destruct H as (rx & ry & Hx & Hy & Heq). split; [discriminate |].
    intros (rx' & ry' & Hx' & Hy' & Hlt). exfalso.
    rewrite Hx in Hx'. rewrite Hy in Hy'. injection Hx' as <-. injection Hy' as <-.
    apply (rank_lt_asym _ _ Hlt). right; symmetry; exact Heq.
  - destruct H as (rx & ry & Hx & Hy & Hlt). split; [| reflexivity].
    intros _. exists rx, ry. auto.
  - destruct H as (rx & ry & Hx & Hy & Hgt). split; [discriminate |].
    intros (rx' & ry' & Hx' & Hy' & Hlt). exfalso.
    rewrite Hx in Hx'. rewrite Hy in Hy'. injection Hx' as <-. injection Hy' as <-.
    apply (rank_lt_asym _ _ Hlt). left; exact Hgt.
  - split; [discriminate |].
    intros (rx' & ry' & Hx' & Hy' & _). destruct H as [H | H]; congruence.
Qed.

Lemma f64_leb_rank (x y : float) :
  (x <=? y)%float = true <->
  exists rx ry, f64_rank x = Some rx /\ f64_rank y = Some ry /\
                (rank_lt rx ry \/ rx = ry).
Proof.
  rewrite FloatAxioms.leb_spec. unfold SFleb, f64_rank.
  pose proof (SFcompare_rank (Prim2SF x) (Prim2SF y)) as H.
  destruct (SFcompare (Prim2SF x) (Prim2SF y)) as [[| |] |].
  - destruct H as (rx & ry & Hx & Hy & Heq). split; [| reflexivity].
    intros _. exists rx, ry. auto.
  - destruct H as (rx & ry & Hx & Hy & Hlt). split; [| reflexivity].
    intros _. exists rx, ry. auto.
  - destruct H as (rx & ry & Hx & Hy & Hgt). split; [discriminate |].
    intros (rx' & ry' & Hx' & Hy' & Hle). exfalso.
    rewrite Hx in Hx'. rewrite Hy in Hy'. injection Hx' as <-. injection Hy' as <-.
    apply (rank_lt_asym _ _ Hgt).
    destruct Hle as [Hle | Hle]; [left; exact Hle | right; congruence].
  - split; [discriminate |].
    intros (rx' & ry' & Hx' & Hy' & _). destruct H as [H | H]; congruence.
Qed.

Lemma f64_is_nan_rank (x : float) :
  is_nan x = false <-> exists r, f64_rank x = Some r.
Proof.
  unfold is_nan. rewrite FloatAxioms.eqb_spec. unfold SFeqb, f64_rank.
  pose proof (SFcompare_rank (Prim2SF x) (Prim2SF x)) as H.
  destruct (SFcompare (Prim2SF x) (Prim2SF x)) as [[| |] |]; cbn.
  - destruct H as (rx & _ & Hx & _). split; [intros _; exists rx; exact Hx | reflexivity].
  - destruct H as (rx & ry & Hx & Hy & Hlt). exfalso.
    rewrite Hx in Hy. injection Hy as <-. apply (rank_lt_asym _ _ Hlt). right; reflexivity.
  - destruct H as (rx & ry & Hx & Hy & Hlt). exfalso.
    rewrite Hx in Hy. injection Hy as <-. apply (rank_lt_asym _ _ Hlt). right; reflexivity.
  - split; [discriminate |]. intros [r Hr]. destruct H; congruence.
Qed.

(** A float that is a NaN is the float [nan]. *)
Lemma f64_nan_unique (x : float) : is_nan x = true -> x = nan.
Proof.
  intros Hn.
  assert (Hr : f64_rank x = None).
  { destruct (f64_rank x) as [r |] eqn:E; [| reflexivity].
    assert (Hf : is_nan x = false) by (apply f64_is_nan_rank; exists r; exact E).
    congruence. }
  unfold f64_rank in Hr.
  rewrite <- (SF2Prim_Prim2SF x).
  destruct (Prim2SF x) as [s | s | | s m e]; try (destruct s; discriminate).
  reflexivity.
Qed.

Lemma f64_ltb_trans (x y z : float) :
  (x <? y)%float = true -> (y <? z)%float = true -> (x <? z)%float = true.
Proof.
  rewrite !f64_ltb_rank.
  intros (rx & ry & Hx & Hy & H1) (ry' & rz & Hy' & Hz & H2).
  rewrite Hy in Hy'. injection Hy' as <-.
  exists rx, rz. split; [exact Hx | split; [exact Hz |]].
  exact (rank_lt_trans _ _ _ H1 H2).
Qed.

Lemma f64_ltb_leb (x y : float) :
  (x <? y)%float = true -> (x <=? y)%float = true.
Proof.
  rewrite f64_ltb_rank, f64_leb_rank.
  intros (rx & ry & Hx & Hy & H). exists rx, ry. auto.
Qed.

Lemma f64_ltb_leb_false (x y : float) :
  (x <? y)%float = true -> (y <=? x)%float = false.
Proof.
  intros H. destruct (y <=? x)%float eqn:E; [exfalso | reflexivity].
  apply f64_ltb_rank in H as (rx & ry & Hx & Hy & Hlt).
  apply f64_leb_rank in E as (ry' & rx' & Hy' & Hx' & Hle).
  rewrite Hx in Hx'. rewrite Hy in Hy'. injection Hx' as <-. injection Hy' as <-.
  apply (rank_lt_asym _ _ Hlt). exact Hle.
Qed.

Lemma f64_leb_ltb_false (x y : float) :
  (x <=? y)%float = true -> (y <? x)%float = false.
Proof.
  intros H. destruct (y <? x)%float eqn:E; [exfalso | reflexivity].
  apply f64_ltb_leb_false in E. congruence.
Qed.

Lemma f64_ltb_not_nan (x y : float) :
  (x <? y)%float = true -> is_nan x = false /\ is_nan y = false.
Proof.
  rewrite f64_ltb_rank. intros (rx & ry & Hx & Hy & _).
  split; apply f64_is_nan_rank; eauto.
Qed.

Lemma f64_leb_not_nan (x y : float) :
  (x <=? y)%float = true -> is_nan x = false /\ is_nan y = false.
Proof.
  rewrite f64_leb_rank. intros (rx & ry & Hx & Hy & _).
  split; apply f64_is_nan_rank; eauto.
Qed.

(** Two floats that are not NaN are comparable. *)
Lemma f64_not_ltb_leb (x y : float) :
  is_nan x = false -> is_nan y = false ->
  (x <? y)%float = false -> (y <=? x)%float = true.
Proof.
  intros Hx Hy Hlt.
  apply f64_is_nan_rank in Hx as [rx Hx]. apply f64_is_nan_rank in Hy as [ry Hy].
  apply f64_leb_rank. exists ry, rx. split; [exact Hy | split; [exact Hx |]].
  destruct (rank_total rx ry) as [H | [H | H]]; [| right; congruence | left; exact H].
  exfalso. assert (E : (x <? y)%float = true)
    by (apply f64_ltb_rank; exists rx, ry; auto).
  congruence.
Qed.

(** ** [clamp01] over binary64 *)

Lemma f64_consts :
  is_nan 0 = false /\ is_nan 1 = false /\ get_sign 0 = false /\ get_sign 1 = false.
Proof. vm_compute. repeat split. Qed.

(** On a float above 0 and at most 1, [clamp01] returns its argument. *)
Lemma f64_clamp01_id (p : float) :
  (0 <? p)%float = true -> (p <=? 1)%float = true -> F64.clamp01 p = p.
Proof.
  intros H0 H1.
  destruct f64_consts as (N0 & N1 & _ & S1).
  destruct (f64_ltb_not_nan _ _ H0) as [_ Np].
  unfold F64.clamp01, F64.Math_max, F64.Math_min.
  rewrite N0, N1, Np, H0. cbn [orb]. rewrite Np. cbn [orb].
  rewrite (f64_leb_ltb_false _ _ H1).
  destruct (p <? 1)%float; [reflexivity |]. rewrite S1. reflexivity.
Qed.

(** The three outcomes of [clamp01] on a float that is not a NaN. *)
Lemma f64_clamp01_cases (x : float) :
  is_nan x = false ->
  F64.clamp01 x = 0%float \/ F64.clamp01 x = 1%float \/
  ((0 <? x)%float = true /\ (x <=? 1)%float = true /\ F64.clamp01 x = x).
Proof.
  intros Nx.
  destruct f64_consts as (N0 & N1 & S0 & S1).
  destruct (0 <? x)%float eqn:H0.
  - destruct (1 <? x)%float eqn:H1.
    + right; left. unfold F64.clamp01, F64.Math_max, F64.Math_min.
      rewrite N0, N1, Nx, H0. cbn [orb]. rewrite Nx. cbn [orb]. rewrite H1.
      reflexivity.
    + right; right.
      assert (Hle : (x <=? 1)%float = true) by (apply f64_not_ltb_leb; assumption).
      split; [reflexivity | split; [exact Hle | apply f64_clamp01_id; assumption]].
  - left. unfold F64.clamp01, F64.Math_max.
    rewrite N0, Nx, H0. cbn [orb].
    destruct (x <? 0)%float; [| rewrite S0]; vm_compute; reflexivity.
Qed.

(** ** [phaseOpacity] over binary64 *)

(** C1, as stated, fails on the fade-out ramp: at progress 0.75, a float
    that is exactly 3/4, the reference definition gives
    [1 - (0.75 - 0.7) / 0.2 = 3/4], and the code returns the float just
    below it, 6755399441055743 / 2^53. *)
Lemma f64_fade_out_misses_reference :
  exists p r : Q,
    F64.toQ 0.75 = Some p /\ p == 3 # 4 /\
    F64.toQ (F64.phaseOpacity 0.75) = Some r /\
    r == 6755399441055743 # 9007199254740992 /\
    phaseOpacity_spec p == 3 # 4 /\
    ~ r == phaseOpacity_spec p.
Proof.
  eexists. eexists.
  split; [vm_compute; reflexivity |]. split; [reflexivity |].
  split; [vm_compute; reflexivity |]. split; [reflexivity |].
  split; [reflexivity | discriminate].
Qed.

Lemma f64_phaseOpacity_on_unit (p : float) :
  (0 <? p)%float = true -> (p <=? 1)%float = true ->
  F64.phaseOpacity p =
    (if p <=? 0.2 then p / 0.2
     else if p <=? 0.7 then 1
     else if p <=? 0.9 then 1 - (p - 0.7) / (0.9 - 0.7)
     else 0)%float.
Proof.
  intros H0 H1. unfold F64.phaseOpacity. rewrite (f64_clamp01_id p H0 H1). reflexivity.
Qed.

(** C1, amended: over binary64, for every [p] above 0 and at most 1,
    [phaseOpacity] returns the rounded quotient [p / 0.2] when [p <= 0.2],
    exactly 1 when [0.2 < p <= 0.7], the rounded value of
    [1 - (p - 0.7) / (0.9 - 0.7)] when [0.7 < p <= 0.9], where the rounded
    difference [0.9 - 0.7] is above [0.2], and exactly 0 when [p > 0.9];
    at 0, 0.2, 0.7, 0.9 and 1 it is exactly 0, 1, 1, 0 and 0. *)
Theorem f64_phaseOpacity_piecewise :
  (forall p : float,
     (0 <? p)%float = true -> (p <=? 1)%float = true ->
     ((p <=? 0.2)%float = true -> F64.phaseOpacity p = (p / 0.2)%float) /\
     ((0.2 <? p)%float = true -> (p <=? 0.7)%float = true ->
        F64.phaseOpacity p = 1%float) /\
     ((0.7 <? p)%float = true -> (p <=? 0.9)%float = true ->
        F64.phaseOpacity p = (1 - (p - 0.7) / (0.9 - 0.7))%float) /\
     ((0.9 <? p)%float = true -> F64.phaseOpacity p = 0%float)) /\
  F64.phaseOpacity 0 = 0%float /\ F64.phaseOpacity (-0) = 0%float /\
  F64.phaseOpacity 0.2 = 1%float /\ F64.phaseOpacity 0.7 = 1%float /\
  F64.phaseOpacity 0.9 = 0%float /\ F64.phaseOpacity 1 = 0%float /\
  (0.2 <? 0.9 - 0.7)%float = true.
Proof.
  split; [| vm_compute; repeat split].
  intros p H0 H1. rewrite (f64_phaseOpacity_on_unit p H0 H1).
  assert (C27 : (0.2 <? 0.7)%float = true) by (vm_compute; reflexivity).
  assert (C79 : (0.7 <? 0.9)%float = true) by (vm_compute; reflexivity).
  split; [| split; [| split]].
  - intros H. rewrite H. reflexivity.
  - intros Hlo Hhi.
    rewrite (f64_ltb_leb_false _ _ Hlo), Hhi. reflexivity.
  - intros Hlo Hhi.
    pose proof (f64_ltb_trans 0.2 0.7 p C27 Hlo) as H2.
    rewrite (f64_ltb_leb_false _ _ H2), (f64_ltb_leb_false _ _ Hlo), Hhi.
    reflexivity.
  - intros Hlo.
    pose proof (f64_ltb_trans 0.7 0.9 p C79 Hlo) as H7.
    pose proof (f64_ltb_trans 0.2 0.7 p C27 H7) as H2.
    rewrite (f64_ltb_leb_false _ _ H2), (f64_ltb_leb_false _ _ H7),
      (f64_ltb_leb_false _ _ Hlo).
    reflexivity.
Qed.

Lemma f64_phaseOpacity_piecewise_witness :
  F64.phaseOpacity 0.75 = (1 - (0.75 - 0.7) / (0.9 - 0.7))%float /\
  F64.phaseOpacity 0.5 = 1%float.
Proof.
  destruct f64_phaseOpacity_piecewise as [Hall _].
  split.
  - destruct (Hall 0.75%float) as (_ & _ & Hramp & _);
      [vm_compute; reflexivity | vm_compute; reflexivity |].
    apply Hramp; vm_compute; reflexivity.
  - destruct (Hall 0.5%float) as (_ & Hhold & _);
      [vm_compute; reflexivity | vm_compute; reflexivity |].
    apply Hhold; vm_compute; reflexivity.
Defined.

(** X1: over binary64, [clamp01] sends a NaN to NaN and every other input
    to a value between 0 and 1, and clamping twice is clamping once, for
    every input. *)
Theorem f64_clamp01_projection (x : float) :
  (is_nan x = true -> F64.clamp01 x = nan) /\
  (is_nan x = false ->
     (0 <=? F64.clamp01 x)%float = true /\ (F64.clamp01 x <=? 1)%float = true) /\
  F64.clamp01 (F64.clamp01 x) = F64.clamp01 x.
Proof.
  destruct (is_nan x) eqn:Nx.
  - apply f64_nan_unique in Nx. subst x.
    split; [intros _; vm_compute; reflexivity |].
    split; [discriminate | vm_compute; reflexivity].
  - split; [discriminate |].
    destruct (f64_clamp01_cases x Nx) as [E | [E | (H0 & H1 & E)]]; rewrite E.
    + split; [intros _; vm_compute; split; reflexivity | vm_compute; reflexivity].
    + split; [intros _; vm_compute; split; reflexivity | vm_compute; reflexivity].
    + split; [intros _; split; [apply f64_ltb_leb; exact H0 | exact H1] | exact E].
Qed.
